(** * futsal-checker: scraper (src/scraper.py) and notifier (src/notifier.py)

    Python [str] values are sequences of Unicode code points; they are
    modelled as [list Z], one code point per element.  The HTML document
    model (BeautifulSoup) is an external collaborator: a card is given by
    the values the code reads from it ([get_text], [find], [get]). *)

From Stdlib Require Import String Ascii ZArith List Lia.
From stdpp Require Import base list gmap sets.
Import ListNotations.
Open Scope Z_scope.

(** ** Python strings *)

Definition pystr := list Z.

(** An ASCII literal as a Python string. *)
Definition lit (s : string) : pystr :=
  map (fun a => Z.of_nat (nat_of_ascii a)) (list_ascii_of_string s).

(** [str.startswith] *)
Fixpoint startswith (s p : pystr) : bool :=
  match p, s with
  | [], _ => true
  | c :: p', d :: s' => bool_decide (c = d) && startswith s' p'
  | _ :: _, [] => false
  end.

(** [p in s] for strings: [p] occurs as a substring of [s]. *)
Fixpoint str_in (p s : pystr) : bool :=
  startswith s p ||
  match s with
  | [] => false
  | _ :: s' => str_in p s'
  end.

(** [s.replace(old, new)] for a non-empty [old]: left to right,
    non-overlapping occurrences.  [skip] counts the characters of the
    occurrence just replaced that remain to be dropped. *)
Fixpoint replace_aux (old new : pystr) (skip : nat) (s : pystr) : pystr :=
  match s with
  | [] => []
  | c :: s' =>
      match skip with
      | S k => replace_aux old new k s'
      | O =>
          if startswith s old
          then new ++ replace_aux old new (pred (length old)) s'
          else c :: replace_aux old new O s'
      end
  end.

Definition str_replace (s old new : pystr) : pystr := replace_aux old new O s.

(** ** Constants of [LaBOLAScraper] *)

Definition BASE_URL : pystr := lit "https://labola.jp".

(** 受付け中 *)
Definition KW_ACCEPTING : pystr := [0x53D7; 0x4ED8; 0x3051; 0x4E2D].
(** 大会 *)
Definition KW_TOURNAMENT : pystr := [0x5927; 0x4F1A].
(** [REQUIRED_KEYWORDS = ["受付け中", "大会"]] *)
Definition REQUIRED_KEYWORDS : list pystr := [KW_ACCEPTING; KW_TOURNAMENT].
(** [EXCLUDED_KEYWORD = "千住大橋"] *)
Definition EXCLUDED_KEYWORD : pystr := [0x5343; 0x4F4F; 0x5927; 0x6A4B].
(** 主催者： *)
Definition ORGANIZER_LABEL : pystr := [0x4E3B; 0x50AC; 0x8005; 0xFF1A].
(** 【 and 】 *)
Definition LBRACKET : Z := 0x3010.
Definition RBRACKET : Z := 0x3011.
Definition NEWLINE : Z := 10.

(** [x in xs] for a list of strings. *)
Definition list_in (x : pystr) (xs : list pystr) : bool :=
  bool_decide (x ∈ xs).

(** ** [Event] *)

Record Event := mkEvent {
  title : pystr;
  facility : pystr;
  url : pystr;
  date : pystr
}.

(** ** [_is_valid_card]: the reason string is kept as a tag. *)

Inductive reason :=
| ReasonExcluded       (* 除外キーワード「千住大橋」が含まれています *)
| ReasonStatus         (* ステータスが「受付け中」ではありません *)
| ReasonKeyword        (* 必須キーワード「大会」が見つかりません *)
| ReasonOK.

Definition is_valid_card (card_text title status : pystr) : bool * reason :=
  if str_in EXCLUDED_KEYWORD card_text then (false, ReasonExcluded)
  else if list_in KW_ACCEPTING REQUIRED_KEYWORDS
          && negb (bool_decide (status = KW_ACCEPTING))
  then (false, ReasonStatus)
  else if list_in KW_TOURNAMENT REQUIRED_KEYWORDS
          && negb (str_in KW_TOURNAMENT card_text)
  then (false, ReasonKeyword)
  else (true, ReasonOK).

(** ** Cards as the code reads them

    [Link]: an [<a>] element: [link.get("href", "")] ([None] when the
    attribute is absent) and [link.get_text(strip=True)].
    [TextElem]: a [p.c-eventcard__text] element: its [get_text(strip=True)]
    and the [get_text(strip=True)] of its first [<a>], if any.
    [Card]: a [div.c-eventcard]: [card.get_text(separator=" ", strip=True)],
    the [p.c-eventcard__title] element (with its first [<a>], if any), the
    text of the first [p] whose class contains [c-eventcard__state], if any,
    and the [p.c-eventcard__text] elements in document order. *)

Record Link := mkLink { href : option pystr; link_text : pystr }.

Record TextElem := mkTextElem { te_text : pystr; te_link_text : option pystr }.

Record Card := mkCard {
  card_text : pystr;
  title_elem : option (option Link);
  status_elem : option pystr;
  text_elems : list TextElem
}.

(** [link.get("href", "")] *)
Definition link_href (l : Link) : pystr :=
  match href l with Some h => h | None => [] end.

(** [full_url = href if href.startswith("http") else f"{BASE_URL}{href}"] *)
Definition full_url (h : pystr) : pystr :=
  if startswith h (lit "http") then h else BASE_URL ++ h.

(** [re.search(r"【(.+?)】", card_text)] and [match.group(1)]: the leftmost
    [【] from which a lazy run of at least one non-newline character reaches
    a [】]. *)
Fixpoint lazy_close (acc : pystr) (s : pystr) : option pystr :=
  match s with
  | [] => None
  | c :: s' =>
      if bool_decide (c = RBRACKET) then Some (rev acc)
      else if bool_decide (c = NEWLINE) then None
      else lazy_close (c :: acc) s'
  end.

Definition bracket_at (s : pystr) : option pystr :=
  match s with
  | [] => None
  | c :: s' => if bool_decide (c = NEWLINE) then None else lazy_close [c] s'
  end.

Fixpoint bracket_search (s : pystr) : option pystr :=
  match s with
  | [] => None
  | c :: s' =>
      if bool_decide (c = LBRACKET) then
        match bracket_at s' with
        | Some g => Some g
        | None => bracket_search s'
        end
      else bracket_search s'
  end.

(** The [for elem in text_elems] loop of [_extract_facility_from_card]. *)
Fixpoint organizer_line (elems : list TextElem) : option pystr :=
  match elems with
  | [] => None
  | e :: es =>
      if startswith (te_text e) ORGANIZER_LABEL then
        match te_link_text e with
        | Some t => Some t
        | None => Some (str_replace (te_text e) ORGANIZER_LABEL [])
        end
      else organizer_line es
  end.

Definition extract_facility_from_card (c : Card) : pystr :=
  match organizer_line (text_elems c) with
  | Some f => f
  | None =>
      match bracket_search (card_text c) with
      | Some g => g
      | None => []
      end
  end.

(** [parse_events]: one card of the [for idx, card in enumerate(...)] loop;
    [None] for every [continue]. The debug prints are not modelled. *)
Definition parse_card (c : Card) (d : pystr) : option Event :=
  match title_elem c with
  | None => None
  | Some None => None
  | Some (Some link) =>
      let h := link_href link in
      let t := link_text link in
      let u := full_url h in
      let status := match status_elem c with Some s => s | None => [] end in
      let fac := extract_facility_from_card c in
      match t with
      | [] => None
      | _ =>
          if fst (is_valid_card (card_text c) t status)
          then Some (mkEvent t fac u d)
          else None
      end
  end.

Fixpoint parse_events (cards : list Card) (d : pystr) : list Event :=
  match cards with
  | [] => []
  | c :: cs =>
      match parse_card c d with
      | Some e => e :: parse_events cs d
      | None => parse_events cs d
      end
  end.

(** ** [load_dates] *)

(** [str.isspace], the characters [str.strip()] removes. *)
Definition is_space (c : Z) : bool :=
  ((9 <=? c) && (c <=? 13)) || ((0x1C <=? c) && (c <=? 0x20)) ||
  bool_decide (c = 0x85) || bool_decide (c = 0xA0) || bool_decide (c = 0x1680) ||
  ((0x2000 <=? c) && (c <=? 0x200A)) || bool_decide (c = 0x2028) ||
  bool_decide (c = 0x2029) || bool_decide (c = 0x202F) ||
  bool_decide (c = 0x205F) || bool_decide (c = 0x3000).

Fixpoint lstrip (s : pystr) : pystr :=
  match s with
  | [] => []
  | c :: s' => if is_space c then lstrip s' else s
  end.

(** [str.strip()] *)
Definition strip (s : pystr) : pystr := rev (lstrip (rev (lstrip s))).

Inductive date_log :=
| LogDatesFileNotFound       (* [ERROR] dates file not found *)
| LogInvalidDate (d : pystr). (* [WARN] Invalid date format: {date} *)

Section LoadDates.

(** [\d] in a [str] pattern: a character of Unicode category Nd. *)
Variable is_decimal : Z -> bool.

(** [re.match(r"^\d{8}$", s)] is truthy: eight decimal characters, then the
    end of the string or a final newline ([$] also matches before it). *)
Definition match_date8 (s : pystr) : bool :=
  let d := take 8 s in
  (length d =? 8)%nat && forallb is_decimal d &&
  match drop 8 s with
  | [] => true
  | [c] => bool_decide (c = NEWLINE)
  | _ => false
  end.

(** [dates = [line.strip() for line in f if line.strip()]] *)
Fixpoint stripped_lines (lines : list pystr) : list pystr :=
  match lines with
  | [] => []
  | l :: ls =>
      match strip l with
      | [] => stripped_lines ls
      | s => s :: stripped_lines ls
      end
  end.

(** The validation loop: [valid_dates] and the warnings printed. *)
Fixpoint validate_dates (dates : list pystr) : list pystr * list date_log :=
  match dates with
  | [] => ([], [])
  | d :: ds =>
      let '(v, logs) := validate_dates ds in
      if match_date8 d then (d :: v, logs) else (v, LogInvalidDate d :: logs)
  end.

(** [load_dates]: [None] when the file does not exist, otherwise the lines
    [for line in f] yields (each with its terminator). *)
Definition load_dates (file : option (list pystr)) : list pystr * list date_log :=
  match file with
  | None => ([], [LogDatesFileNotFound])
  | Some lines => validate_dates (stripped_lines lines)
  end.

End LoadDates.

(** ** [LineNotifier] *)

(** The outcome of [requests.post(...)]: a response with its status code,
    or a raised [requests.RequestException]. *)
Inductive response :=
| RespStatus (code : Z)
| RespExn.

(** Lines printed by the notifier. *)
Inductive report :=
| PCredNotConfigured          (* [ERROR] LINE credentials not configured *)
| PCredHint                   (* Set LINE_CHANNEL_ACCESS_TOKEN and LINE_USER_ID ... *)
| PSent (title30 : pystr)     (* [OK] Notification sent: {event.title[:30]}... *)
| PApiError (code : Z)        (* [ERROR] LINE API error: {status_code} *)
| PApiResponse                (* Response: {response.text} *)
| PRequestFailed              (* [ERROR] Failed to send notification: {e} *)
| PNoNewToNotify              (* [INFO] No new events to notify *)
| PSending (n : nat)          (* [INFO] Sending {n} notifications... *)
| PComplete (s f : nat).      (* [INFO] Notifications complete: ... *)

(** Observable effects, in order: a print, a POST to [PUSH_API_URL] whose
    body carries [_format_message ev], a line appended to the ledger file. *)
Inductive action :=
| APrint (r : report)
| APost (ev : Event)
| AAppend (u : pystr).

(** The run state: the in-memory [self.sent_urls], the lines of the ledger
    file [sent_urls_file], the effects so far, and the number of POST
    requests issued. *)
Record St := mkSt {
  sent_urls : gset pystr;
  sent_file : list pystr;
  trace : list action;
  nposts : nat
}.

(** The credentials of the notifier object ([None] when neither the argument
    nor the environment variable is set). *)
Record Notifier := mkNotifier {
  channel_access_token : option pystr;
  user_id : option pystr
}.

(** A small state monad. *)
Definition M (A : Type) : Type := St -> A * St.

Definition ret {A} (a : A) : M A := fun s => (a, s).

Definition bind {A B} (m : M A) (k : A -> M B) : M B :=
  fun s => let '(a, s') := m s in k a s'.

Notation "'let!' x := m 'in' k" := (bind m (fun x => k))
  (at level 200, x name, m at level 100, k at level 200).

Definition get : M St := fun s => (s, s).

Definition emit (a : action) : M unit :=
  fun s => (tt, mkSt (sent_urls s) (sent_file s) (trace s ++ [a]) (nposts s)).

Definition print (r : report) : M unit := emit (APrint r).

(** [not x] on [str | None]. *)
Definition falsy (x : option pystr) : bool :=
  match x with None => true | Some [] => true | Some _ => false end.

Definition is_new_event (sent : gset pystr) (ev : Event) : bool :=
  bool_decide (url ev ∉ sent).

(** [[event for event in events if self.is_new_event(event)]] *)
Definition filter_new_events (sent : gset pystr) (evs : list Event) : list Event :=
  List.filter (is_new_event sent) evs.

(** [_save_sent_url]: append to the file, then add to the set. *)
Definition save_sent_url (u : pystr) : M unit :=
  fun s => (tt, mkSt ({[u]} ∪ sent_urls s) (sent_file s ++ [u])
                     (trace s ++ [AAppend u]) (nposts s)).

Section Send.

(** The network: the response to the [k]-th POST request of the run. *)
Variable net : nat -> response.

Definition post (ev : Event) : M response :=
  fun s => (net (nposts s),
            mkSt (sent_urls s) (sent_file s) (trace s ++ [APost ev]) (S (nposts s))).

(** [not self.channel_access_token or not self.user_id] *)
Definition creds_missing (nt : Notifier) : bool :=
  falsy (channel_access_token nt) || falsy (user_id nt).

Definition send_notification (nt : Notifier) (ev : Event) : M bool :=
  if creds_missing nt then
    let! _ := print PCredNotConfigured in
    let! _ := print PCredHint in
    ret false
  else
    let! r := post ev in
    match r with
    | RespStatus code =>
        if bool_decide (code = 200) then
          let! _ := print (PSent (take 30 (title ev))) in
          let! _ := save_sent_url (url ev) in
          ret true
        else
          let! _ := print (PApiError code) in
          let! _ := print PApiResponse in
          ret false
    | RespExn =>
        let! _ := print PRequestFailed in
        ret false
    end.

(** The [for event in new_events] loop of [notify_all]. *)
Fixpoint send_loop (nt : Notifier) (evs : list Event) (success failed : nat)
  : M (nat * nat) :=
  match evs with
  | [] => ret (success, failed)
  | ev :: evs' =>
      let! ok := send_notification nt ev in
      if ok then send_loop nt evs' (S success) failed
      else send_loop nt evs' success (S failed)
  end.

Definition notify_all (nt : Notifier) (evs : list Event) : M (nat * nat) :=
  let! s := get in
  let new_events := filter_new_events (sent_urls s) evs in
  match new_events with
  | [] =>
      let! _ := print PNoNewToNotify in
      ret (0%nat, 0%nat)
  | _ =>
      let! _ := print (PSending (length new_events)) in
      let! r := send_loop nt new_events 0 0 in
      let! _ := print (PComplete (fst r) (snd r)) in
      ret r
  end.

(** [main] of main.py from the point where [events = list(scraper.scrape_all())]
    is known; the state is that of the freshly constructed notifier.  Its
    prints are not modelled. *)
Definition main_run (nt : Notifier) (events : list Event) : M Z :=
  match events with
  | [] => ret 0
  | _ =>
      let! s := get in
      let new_events := filter_new_events (sent_urls s) events in
      match new_events with
      | [] => ret 0
      | _ =>
          let! r := notify_all nt events in
          ret (if (snd r =? 0)%nat then 0 else 1)
      end
  end.

End Send.

(** ** Spec-side reading of the ledger filter (claim C4): walk the list and
    keep, in order, each event whose url is not in the loaded set. *)
Fixpoint keep_unreported (sent : gset pystr) (evs : list Event) : list Event :=
  match evs with
  | [] => []
  | e :: es =>
      if bool_decide (url e ∈ sent) then keep_unreported sent es
      else e :: keep_unreported sent es
  end.

(** ** Effects of a run *)

Definition is_cred_report (a : action) : bool :=
  match a with APrint PCredNotConfigured => true | _ => false end.

(** The per-delivery failure lines printed by [send_notification]. *)
Definition is_failure_report (a : action) : bool :=
  match a with
  | APrint PCredNotConfigured | APrint (PApiError _) | APrint PRequestFailed => true
  | _ => false
  end.

Definition is_post (a : action) : bool :=
  match a with APost _ => true | _ => false end.

Definition is_post_of (u : pystr) (a : action) : bool :=
  match a with APost e => bool_decide (url e = u) | _ => false end.

(** ** Scenario of the spec: date 20260207, one accepting card. *)

Definition scenario_date : pystr := lit "20260207".

(** 【Test】大会募集 *)
Definition scenario_title : pystr :=
  [LBRACKET] ++ lit "Test" ++ [RBRACKET] ++ KW_TOURNAMENT ++ [0x52DF; 0x96C6].

Definition scenario_href : pystr := lit "/r/shop/1/event/show/2/".

Definition scenario_card (status extra : pystr) : Card :=
  mkCard (scenario_title ++ [32] ++ status ++ extra)
         (Some (Some (mkLink (Some scenario_href) scenario_title)))
         (Some status)
         [].

(** ** The ledger file ([sent_urls_file])

    Its text, as [_load_sent_urls] reads it in text mode: universal
    newlines turn "\r\n" and "\r" into "\n", then [for line in f] yields the
    lines, each with its "\n" except possibly the last. *)

Definition CR : Z := 13.

Fixpoint translate_newlines (s : pystr) : pystr :=
  match s with
  | [] => []
  | c :: s' =>
      if bool_decide (c = CR) then
        match s' with
        | d :: s'' =>
            if bool_decide (d = NEWLINE) then NEWLINE :: translate_newlines s''
            else NEWLINE :: translate_newlines s'
        | [] => [NEWLINE]
        end
      else c :: translate_newlines s'
  end.

(** [cur] holds the current line, reversed. *)
Fixpoint split_lines_aux (cur : pystr) (s : pystr) : list pystr :=
  match s with
  | [] => match cur with [] => [] | _ => [rev cur] end
  | c :: s' =>
      if bool_decide (c = NEWLINE) then rev (c :: cur) :: split_lines_aux [] s'
      else split_lines_aux (c :: cur) s'
  end.

Definition file_lines (text : pystr) : list pystr :=
  split_lines_aux [] (translate_newlines text).

(** [_load_sent_urls]: [None] when the file does not exist;
    [{line.strip() for line in f if line.strip()}] otherwise. *)
Definition load_sent_urls (file : option pystr) : gset pystr :=
  match file with
  | None => ∅
  | Some text => list_to_set (stripped_lines (file_lines text))
  end.

(** The text of a ledger file written only by [_save_sent_url]
    ([f.write(f"{url}\n")] in append mode), one call per url, in order. *)
Definition ledger_text (urls : list pystr) : pystr :=
  concat (map (fun u => u ++ [NEWLINE]) urls).

(** ** [_format_message] *)


(** [f"{event.date[:4]}/{event.date[4:6]}/{event.date[6:]}"] *)
Definition format_date (d : pystr) : pystr :=
  take 4 d ++ lit "/" ++ take 2 (drop 4 d) ++ lit "/" ++ drop 6 d.



(** ** [fetch_page] and [scrape_all] *)

(** The outcome of [self.session.get(url, timeout=30)]: a raised
    [requests.RequestException], or a response with its status code and the
    [div.c-eventcard] elements of [BeautifulSoup(response.text)]. *)
Inductive page_response :=
| PageExn
| PageResp (code : Z) (cards : list Card).

(** [SEARCH_URL_TEMPLATE.format(date=date)] *)
Definition search_url (d : pystr) : pystr :=
  lit "https://labola.jp/reserve/events/search/personal/area-13/day-" ++ d ++ lit "/".

Section Scrape.

Variable is_decimal : Z -> bool.
(** The site: the response to a GET of a url. *)
Variable http_get : pystr -> page_response.

(** [fetch_page]: [raise_for_status()] raises for a status in [400, 600). *)
Definition fetch_page (d : pystr) : option (list Card) :=
  match http_get (search_url d) with
  | PageExn => None
  | PageResp code cards =>
      if (400 <=? code) && (code <? 600) then None else Some cards
  end.

(** The [for date in dates] loop of [scrape_all], yielded events in order. *)
Fixpoint scrape_dates (dates : list pystr) : list Event :=
  match dates with
  | [] => []
  | d :: ds =>
      match fetch_page d with
      | None => scrape_dates ds
      | Some cards => parse_events cards d ++ scrape_dates ds
      end
  end.

(** [list(scrape_all())], given what [load_dates] reads. *)
Definition scrape_all (dates_file : option (list pystr)) : list Event :=
  match fst (load_dates is_decimal dates_file) with
  | [] => []
  | dates => scrape_dates dates
  end.

End Scrape.

(** * Properties *)

Definition card_status (c : Card) : pystr :=
  match status_elem c with Some s => s | None => [] end.

Lemma parse_card_status c d :
  parse_card c d =
  match title_elem c with
  | Some (Some link) =>
      match link_text link with
      | [] => None
      | _ =>
          if fst (is_valid_card (card_text c) (link_text link) (card_status c))
          then Some (mkEvent (link_text link) (extract_facility_from_card c)
                             (full_url (link_href link)) d)
          else None
      end
  | _ => None
  end.
Proof. unfold parse_card, card_status. by destruct (title_elem c) as [[]|]. Qed.

Lemma in_parse_events cards d e :
  In e (parse_events cards d) <-> exists c, In c cards /\ parse_card c d = Some e.
Proof.
  induction cards as [|c cs IH]; simpl.
  - split; [done | intros (? & [] & _)].
  - destruct (parse_card c d) as [e'|] eqn:Hc; simpl.
    + split.
      * intros [<-|H]; [by eauto|]. apply IH in H as (c' & ? & ?); eauto.
      * intros (c' & [<-|Hin] & Hp); [left; congruence|].
        right. apply IH; eauto.
    + rewrite IH. split.
      * intros (c' & ? & ?); eauto.
      * intros (c' & [<-|Hin] & Hp); [congruence|eauto].
Qed.


(** ** C2 *)

(** C2: when the card text contains the excluded keyword 千住大橋, the
    acceptance predicate rejects the card with the exclusion reason whatever
    the status and the title (the exclusion test comes first), and no event
    is extracted from such a card. *)
Theorem exclusion_precedence (card_text0 title0 status : pystr)
  (Hexcl : str_in EXCLUDED_KEYWORD card_text0 = true) :
  is_valid_card card_text0 title0 status = (false, ReasonExcluded) /\
  forall (c : Card) (d : pystr), card_text c = card_text0 -> parse_card c d = None.
Proof.
  assert (Hv : forall t s, is_valid_card card_text0 t s = (false, ReasonExcluded)).
  { intros t s. unfold is_valid_card. by rewrite Hexcl. }
  split; [apply Hv|].
  intros c d Hc. rewrite parse_card_status, Hc.
  destruct (title_elem c) as [[link|]|]; [|done|done].
  destruct (link_text link); [done|]. by rewrite Hv.
Qed.

Lemma exclusion_precedence_witness :
  str_in EXCLUDED_KEYWORD (card_text (scenario_card KW_ACCEPTING EXCLUDED_KEYWORD)) = true /\
  is_valid_card (card_text (scenario_card KW_ACCEPTING EXCLUDED_KEYWORD))
    scenario_title KW_ACCEPTING = (false, ReasonExcluded).
Proof.
  assert (H : str_in EXCLUDED_KEYWORD
                (card_text (scenario_card KW_ACCEPTING EXCLUDED_KEYWORD)) = true)
    by reflexivity.
  split; [exact H|].
  exact (proj1 (exclusion_precedence _ scenario_title KW_ACCEPTING H)).
Defined.

(** ** C3 *)

(** C3: for a card text without the excluded keyword, the predicate accepts
    exactly when the status equals 受付け中 (string equality) and the card
    text contains 大会; a card without a status element has the empty status
    and yields no event. *)
Theorem accept_iff_status_and_keyword (card_text0 title0 status : pystr)
  (Hnoexcl : str_in EXCLUDED_KEYWORD card_text0 = false) :
  (fst (is_valid_card card_text0 title0 status) = true <->
     status = KW_ACCEPTING /\ str_in KW_TOURNAMENT card_text0 = true) /\
  forall (c : Card) (d : pystr),
    card_text c = card_text0 -> status_elem c = None ->
    card_status c = [] /\ parse_card c d = None.
Proof.
  assert (Hv : forall t s, fst (is_valid_card card_text0 t s) = true <->
                 s = KW_ACCEPTING /\ str_in KW_TOURNAMENT card_text0 = true).
  { intros t s. unfold is_valid_card. rewrite Hnoexcl.
    assert (H1 : list_in KW_ACCEPTING REQUIRED_KEYWORDS = true) by reflexivity.
    assert (H2 : list_in KW_TOURNAMENT REQUIRED_KEYWORDS = true) by reflexivity.
    rewrite H1, H2. simpl.
    destruct (bool_decide (s = KW_ACCEPTING)) eqn:Hs; simpl.
    - apply bool_decide_eq_true in Hs.
      destruct (str_in KW_TOURNAMENT card_text0); simpl; intuition congruence.
    - apply bool_decide_eq_false in Hs. intuition congruence. }
  split; [apply Hv|].
  intros c d Hc Hs.
  assert (Hst : card_status c = []) by (unfold card_status; by rewrite Hs).
  split; [done|].
  rewrite parse_card_status, Hc, Hst.
  destruct (title_elem c) as [[link|]|]; [|done|done].
  destruct (link_text link); [done|].
  destruct (fst (is_valid_card card_text0 (_ :: _) [])) eqn:E; [|done].
  apply Hv in E as [E _]. discriminate.
Qed.

Lemma accept_iff_status_and_keyword_witness :
  str_in EXCLUDED_KEYWORD (card_text (scenario_card KW_ACCEPTING [])) = false /\
  fst (is_valid_card (card_text (scenario_card KW_ACCEPTING [])) scenario_title
         KW_ACCEPTING) = true.
Proof.
  assert (H : str_in EXCLUDED_KEYWORD (card_text (scenario_card KW_ACCEPTING [])) = false)
    by reflexivity.
  split; [exact H|].
  apply (proj1 (accept_iff_status_and_keyword _ scenario_title KW_ACCEPTING H)).
  split; [reflexivity|vm_compute; reflexivity].
Defined.

(** ** C4 *)

(** C4: [filter_new_events] keeps, in order, exactly the events whose url is
    not in the loaded ledger set; an event whose url is in the ledger is
    excluded from the result wherever it occurs in the input (and so is any
    event with that url). *)
Theorem filter_new_events_spec (sent : gset pystr) (evs : list Event) :
  filter_new_events sent evs = keep_unreported sent evs /\
  (forall e, In e (filter_new_events sent evs) <-> In e evs /\ url e ∉ sent) /\
  (forall e pre post, url e ∈ sent ->
     ~ In e (filter_new_events sent (pre ++ e :: post)) /\
     Forall (fun e' => url e' <> url e) (filter_new_events sent (pre ++ e :: post))).
Proof.
  assert (Hin : forall l e, In e (filter_new_events sent l) <-> In e l /\ url e ∉ sent).
  { intros l e. unfold filter_new_events, is_new_event.
    rewrite filter_In, bool_decide_eq_true. done. }
  split; [|split; [apply Hin|]].
  - unfold filter_new_events, is_new_event.
    induction evs as [|e es IH]; simpl; [done|].
    rewrite IH. destruct (decide (url e ∈ sent)).
    + rewrite bool_decide_false by set_solver. rewrite bool_decide_true by done. done.
    + rewrite bool_decide_true by done. rewrite bool_decide_false by done. done.
  - intros e pre post He. split.
    + intros H. apply Hin in H as [_ H]. done.
    + apply List.Forall_forall. intros e' H' Heq.
      apply Hin in H' as [_ H']. rewrite Heq in H'. done.
Qed.

(** ** C5 *)

Lemma full_url_absolute h : startswith (full_url h) (lit "http") = true.
Proof.
  unfold full_url. destruct (startswith h (lit "http")) eqn:E; [done|].
  reflexivity.
Qed.

(** C5: every extracted event takes its url from the href of its card's
    title link: unchanged when the href starts with "http", otherwise
    prefixed with "https://labola.jp", so it always starts with "http"; the
    href "/r/shop/1/event/show/2/" gives "https://labola.jp/r/shop/1/event/show/2/". *)
Theorem parse_events_absolute_url :
  (forall (cards : list Card) (d : pystr) (e : Event),
     In e (parse_events cards d) ->
     exists c l, In c cards /\ title_elem c = Some (Some l) /\
       url e = full_url (link_href l) /\
       (startswith (link_href l) (lit "http") = true -> url e = link_href l) /\
       (startswith (link_href l) (lit "http") = false -> url e = BASE_URL ++ link_href l) /\
       startswith (url e) (lit "http") = true) /\
  full_url (lit "/r/shop/1/event/show/2/") = lit "https://labola.jp/r/shop/1/event/show/2/".
Proof.
  split; [|reflexivity].
  intros cards d e H. apply in_parse_events in H as (c & Hc & Hp).
  rewrite parse_card_status in Hp.
  destruct (title_elem c) as [[l|]|] eqn:Ht; try discriminate.
  destruct (link_text l); [discriminate|].
  destruct (fst _); [|discriminate].
  injection Hp as <-. simpl.
  exists c, l. repeat split; try done.
  - unfold full_url. intros ->. done.
  - unfold full_url. intros ->. done.
  - apply full_url_absolute.
Qed.

Example scenario_extraction :
  parse_events [scenario_card KW_ACCEPTING []] scenario_date =
    [mkEvent scenario_title (lit "Test")
             (lit "https://labola.jp/r/shop/1/event/show/2/") scenario_date].
Proof. reflexivity. Qed.

Example scenario_full_status :
  parse_events [scenario_card [0x6E80; 0x5E2D] []] scenario_date = [].
Proof. reflexivity. Qed.

Example scenario_excluded :
  parse_events [scenario_card KW_ACCEPTING EXCLUDED_KEYWORD] scenario_date = [].
Proof. reflexivity. Qed.

(** ** C9 *)

Lemma stripped_lines_filter lines :
  stripped_lines lines =
  List.filter (fun s => negb (bool_decide (s = []))) (map strip lines).
Proof.
  induction lines as [|l ls IH]; simpl; [done|].
  destruct (strip l) eqn:E; simpl; rewrite IH; done.
Qed.

Lemma validate_dates_filter is_decimal ds :
  validate_dates is_decimal ds =
  (List.filter (match_date8 is_decimal) ds,
   map LogInvalidDate (List.filter (fun s => negb (match_date8 is_decimal s)) ds)).
Proof.
  induction ds as [|d ds IH]; simpl; [done|].
  rewrite IH. destruct (match_date8 is_decimal d); done.
Qed.

Lemma lstrip_head s :
  lstrip s = [] \/ exists c r, lstrip s = c :: r /\ is_space c = false.
Proof.
  induction s as [|c s IH]; simpl; [by left|].
  destruct (is_space c) eqn:E; [done|]. right. eauto.
Qed.

Lemma strip_last s :
  strip s = [] \/ exists x c, strip s = x ++ [c] /\ is_space c = false.
Proof.
  unfold strip. destruct (lstrip_head (rev (lstrip s))) as [->|(c & r & -> & Hc)].
  - by left.
  - right. exists (rev r), c. simpl. done.
Qed.

(** On a stripped line, [$] can only match at the very end. *)
Lemma match_date8_stripped is_decimal s :
  (exists x c, s = x ++ [c] /\ is_space c = false) ->
  match_date8 is_decimal s = ((length s =? 8)%nat && forallb is_decimal s).
Proof.
  intros (x & c & -> & Hc). unfold match_date8.
  assert (Hnl : c <> NEWLINE) by (intros ->; discriminate).
  set (s := x ++ [c]). assert (Hlen : length s = S (length x))
    by (unfold s; rewrite length_app; simpl; lia).
  destruct (decide (length s <= 8)%nat) as [Hle|Hgt].
  - rewrite take_ge by lia. rewrite drop_ge by lia.
    rewrite andb_true_r. done.
  - destruct (decide (length s = 9%nat)) as [H9|H10].
    + assert (Hx : length x = 8%nat) by lia.
      assert (Hd : drop 8 s = [c]).
      { unfold s. rewrite <- Hx. apply drop_app_length. }
      rewrite Hd, bool_decide_false by done.
      rewrite andb_false_r, H9. done.
    + assert (Hd : exists a b r, drop 8 s = a :: b :: r).
      { assert (Hl : length (drop 8 s) = (length s - 8)%nat) by apply length_drop.
        destruct (drop 8 s) as [|a [|b r]]; simpl in Hl; [lia|lia|eauto]. }
      destruct Hd as (a & b & r & ->).
      rewrite andb_false_r. destruct (length s =? 8)%nat eqn:E; [|done].
      apply Nat.eqb_eq in E. lia.
Qed.

(** C9: with the file missing, [load_dates] returns no date (it prints one
    error, it does not raise); otherwise it returns, in file order, the
    stripped non-empty lines that match [^\d{8}$] (on a stripped line:
    eight decimal characters), and prints one warning for each other
    stripped non-empty line, in order. *)
Theorem load_dates_spec (is_decimal : Z -> bool) :
  load_dates is_decimal None = ([], [LogDatesFileNotFound]) /\
  forall lines : list pystr,
    let cand := List.filter (fun s => negb (bool_decide (s = []))) (map strip lines) in
    load_dates is_decimal (Some lines) =
      (List.filter (match_date8 is_decimal) cand,
       map LogInvalidDate (List.filter (fun s => negb (match_date8 is_decimal s)) cand)) /\
    (forall s, In s cand ->
       match_date8 is_decimal s = ((length s =? 8)%nat && forallb is_decimal s)).
Proof.
  split; [done|]. intros lines cand. split.
  - simpl. rewrite stripped_lines_filter. apply validate_dates_filter.
  - intros s Hs. unfold cand in Hs.
    apply filter_In in Hs as [Hs Hne]. apply in_map_iff in Hs as (l & <- & _).
    apply match_date8_stripped.
    destruct (strip_last l) as [E|H]; [|done].
    rewrite E in Hne. discriminate.
Qed.

(** ** The notifier, step by step *)

Lemma send_notification_cases net nt ev s :
  send_notification net nt ev s =
  if creds_missing nt then
    (false, mkSt (sent_urls s) (sent_file s)
                 (trace s ++ [APrint PCredNotConfigured; APrint PCredHint]) (nposts s))
  else
    match net (nposts s) with
    | RespStatus code =>
        if bool_decide (code = 200) then
          (true, mkSt ({[url ev]} ∪ sent_urls s) (sent_file s ++ [url ev])
                      (trace s ++ [APost ev; APrint (PSent (take 30 (title ev)));
                                   AAppend (url ev)]) (S (nposts s)))
        else
          (false, mkSt (sent_urls s) (sent_file s)
                       (trace s ++ [APost ev; APrint (PApiError code); APrint PApiResponse])
                       (S (nposts s)))
    | RespExn =>
        (false, mkSt (sent_urls s) (sent_file s)
                     (trace s ++ [APost ev; APrint PRequestFailed]) (S (nposts s)))
    end.
Proof.
  unfold send_notification, bind, ret, print, emit, post, save_sent_url.
  destruct (creds_missing nt); simpl; [by rewrite <- app_assoc|].
  destruct (net (nposts s)) as [code|];
    [destruct (bool_decide (code = 200))|]; simpl; by rewrite <- !app_assoc.
Qed.

Lemma send_loop_cons net nt ev evs sc fc s :
  send_loop net nt (ev :: evs) sc fc s =
  let '(ok, s1) := send_notification net nt ev s in
  if ok then send_loop net nt evs (S sc) fc s1 else send_loop net nt evs sc (S fc) s1.
Proof. cbn -[send_notification]. unfold bind. by destruct (send_notification net nt ev s) as [[] ?]. Qed.

(** Each call of [send_notification] prints one failure line exactly when it
    returns [false]; the loop counts failures accordingly. *)
Lemma send_loop_failures net nt evs sc fc s :
  let '((sc', fc'), s') := send_loop net nt evs sc fc s in
  exists new, trace s' = trace s ++ new /\
    fc' = (fc + length (List.filter is_failure_report new))%nat /\
    (sc' + fc' = sc + fc + length evs)%nat.
Proof.
  revert sc fc s. induction evs as [|ev evs IH]; intros sc fc s.
  - exists []. simpl. rewrite app_nil_r. split; [done|]. simpl. lia.
  - rewrite send_loop_cons, send_notification_cases.
    destruct (creds_missing nt);
      [|destruct (net (nposts s)) as [code|];
        [destruct (bool_decide (code = 200))|]].
    all: lazymatch goal with
         | |- context [send_loop ?nw ?n ?l ?a ?b ?s1] =>
             specialize (IH a b s1); destruct (send_loop nw n l a b s1) as [[x y] s'];
             destruct IH as (new & Ht & Hf & Hs); simpl in Ht
         end.
    all: eexists; rewrite Ht, <- app_assoc; split; [reflexivity|];
         rewrite List.filter_app, length_app; simpl in *; lia.
Qed.

(** Without credentials the loop never reaches the network and never
    commits: it prints the configuration error once per event. *)
Lemma send_loop_no_creds net nt evs sc fc s :
  creds_missing nt = true ->
  send_loop net nt evs sc fc s =
  ((sc, (fc + length evs)%nat),
   mkSt (sent_urls s) (sent_file s)
        (trace s ++ flat_map (fun _ => [APrint PCredNotConfigured; APrint PCredHint]) evs)
        (nposts s)).
Proof.
  intros Hc. revert fc s. induction evs as [|ev evs IH]; intros fc s.
  - simpl. rewrite app_nil_r, Nat.add_0_r. by destruct s.
  - rewrite send_loop_cons, send_notification_cases, Hc, IH. simpl.
    rewrite <- app_assoc. do 3 f_equal. lia.
Qed.

(** With credentials and a network that always answers 200, every event of
    the batch is posted and committed, in order. *)
Lemma send_loop_all_ok net nt evs sc fc s :
  creds_missing nt = false -> (forall k, net k = RespStatus 200) ->
  send_loop net nt evs sc fc s =
  (((sc + length evs)%nat, fc),
   mkSt (list_to_set (map url evs) ∪ sent_urls s) (sent_file s ++ map url evs)
        (trace s ++ flat_map (fun e => [APost e; APrint (PSent (take 30 (title e)));
                                        AAppend (url e)]) evs)
        (nposts s + length evs)).
Proof.
  intros Hc Hnet. revert sc s. induction evs as [|ev evs IH]; intros sc s.
  - simpl. rewrite !app_nil_r, !Nat.add_0_r. destruct s; simpl. f_equal. f_equal.
    set_solver.
  - rewrite send_loop_cons, send_notification_cases, Hc, Hnet, bool_decide_true by done.
    rewrite IH. simpl. rewrite <- !app_assoc. f_equal; [f_equal; lia|]. f_equal.
    + set_solver.
    + lia.
Qed.

Lemma notify_all_unfold net nt evs s :
  notify_all net nt evs s =
  match filter_new_events (sent_urls s) evs with
  | [] => ((0%nat, 0%nat), mkSt (sent_urls s) (sent_file s)
                                (trace s ++ [APrint PNoNewToNotify]) (nposts s))
  | new =>
      let '(r, s1) :=
        send_loop net nt new 0 0
          (mkSt (sent_urls s) (sent_file s)
                (trace s ++ [APrint (PSending (length new))]) (nposts s)) in
      (r, mkSt (sent_urls s1) (sent_file s1)
               (trace s1 ++ [APrint (PComplete (fst r) (snd r))]) (nposts s1))
  end.
Proof.
  unfold notify_all, bind, get, ret, print, emit. simpl.
  destruct (filter_new_events (sent_urls s) evs) as [|e l]; [done|].
  reflexivity.
Qed.

(** ** C1 *)

(** C1: one delivery attempt commits the event's url (one line appended to
    the ledger file, the url added to the in-memory set) exactly when the
    credentials are present and the POST is answered with status 200; a
    failed attempt (missing credentials, raised request exception, other
    status) commits nothing; a commit only ever concerns the event's url and
    comes after its POST in the effects. *)
Theorem send_commit_iff_success (net : nat -> response) (nt : Notifier)
  (ev : Event) (s : St) :
  let '(ok, s') := send_notification net nt ev s in
  exists new,
    trace s' = trace s ++ new /\
    (ok = true <-> creds_missing nt = false /\ net (nposts s) = RespStatus 200) /\
    sent_file s' = sent_file s ++ (if ok then [url ev] else []) /\
    sent_urls s' = (if ok then {[url ev]} ∪ sent_urls s else sent_urls s) /\
    (forall u, In (AAppend u) new -> u = url ev /\ ok = true) /\
    (ok = true -> exists pre post,
       new = pre ++ AAppend (url ev) :: post /\ In (APost ev) pre /\
       ~ In (AAppend (url ev)) pre /\ ~ In (AAppend (url ev)) post).
Proof.
  rewrite send_notification_cases.
  destruct (creds_missing nt) eqn:Hc.
  - simpl. eexists. split; [reflexivity|].
    split; [split; [done|intros [? _]; discriminate]|].
    rewrite app_nil_r. repeat split; try done.
    all: simpl in *; naive_solver.
  - destruct (net (nposts s)) as [code|] eqn:Hn;
      [destruct (bool_decide (code = 200)) eqn:Hb|]; simpl.
    + apply bool_decide_eq_true in Hb. subst code.
      eexists. split; [reflexivity|]. split; [done|].
      split; [done|]. split; [done|]. split.
      * intros u Hu. simpl in Hu. naive_solver.
      * intros _. exists [APost ev; APrint (PSent (take 30 (title ev)))], [].
        simpl. naive_solver.
    + apply bool_decide_eq_false in Hb.
      eexists. split; [reflexivity|].
      split; [split; [done|intros [_ H]; congruence]|].
      rewrite app_nil_r. repeat split; try done.
      all: simpl in *; naive_solver.
    + eexists. split; [reflexivity|].
      split; [split; [done|intros [_ H]; congruence]|].
      rewrite app_nil_r. repeat split; try done.
      all: simpl in *; naive_solver.
Qed.

(** ** Counting lemmas *)

Lemma filter_new_events_same_url (sent : gset pystr) (evs : list Event) (u : pystr) :
  u ∉ sent ->
  List.filter (fun e => bool_decide (url e = u)) (filter_new_events sent evs) =
  List.filter (fun e => bool_decide (url e = u)) evs.
Proof.
  intros Hu. unfold filter_new_events, is_new_event.
  induction evs as [|e es IH]; simpl; [done|].
  destruct (bool_decide (url e ∉ sent)) eqn:E1; simpl;
    destruct (bool_decide (url e = u)) eqn:E2; simpl; rewrite ?IH; try done.
  apply bool_decide_eq_false in E1. apply bool_decide_eq_true in E2.
  subst u. done.
Qed.

Lemma count_url_map (evs : list Event) (u : pystr) :
  length (List.filter (fun x => bool_decide (x = u)) (map url evs)) =
  length (List.filter (fun e => bool_decide (url e = u)) evs).
Proof.
  induction evs as [|e es IH]; simpl; [done|].
  destruct (bool_decide (url e = u)); simpl; lia.
Qed.

Lemma count_posts_ok (evs : list Event) (u : pystr) :
  length (List.filter (is_post_of u)
    (flat_map (fun e => [APost e; APrint (PSent (take 30 (title e))); AAppend (url e)]) evs)) =
  length (List.filter (fun e => bool_decide (url e = u)) evs).
Proof.
  induction evs as [|e es IH]; simpl; [done|].
  destruct (bool_decide (url e = u)); simpl; lia.
Qed.

Lemma no_creds_reports (evs : list Event) :
  Forall (fun a => is_post a = false)
    (flat_map (fun _ => [APrint PCredNotConfigured; APrint PCredHint]) evs) /\
  length (List.filter is_cred_report
    (flat_map (fun _ => [APrint PCredNotConfigured; APrint PCredHint]) evs)) = length evs.
Proof.
  induction evs as [|e es [IH1 IH2]]; simpl; [done|].
  split; [by repeat constructor|]. by rewrite IH2.
Qed.

Lemma filter_length_zero {A} (f : A -> bool) (l : list A) :
  length (List.filter f l) = 0%nat <-> Forall (fun a => f a = false) l.
Proof.
  induction l as [|a l IH]; simpl.
  - split; [constructor|done].
  - rewrite Forall_cons. destruct (f a); simpl.
    + split; [lia|intros [? _]; discriminate].
    + rewrite IH. naive_solver.
Qed.

Lemma filter_length_nonzero {A} (f : A -> bool) (l : list A) :
  length (List.filter f l) <> 0%nat <-> Exists (fun a => f a = true) l.
Proof.
  induction l as [|a l IH]; simpl.
  - split; [done|intros H; inversion H].
  - rewrite Exists_cons. destruct (f a); simpl.
    + split; [by left|lia].
    + rewrite IH. naive_solver.
Qed.

Lemma main_run_unfold net nt evs s :
  main_run net nt evs s =
  match evs with
  | [] => (0, s)
  | _ =>
      match filter_new_events (sent_urls s) evs with
      | [] => (0, s)
      | _ =>
          let '(r, s') := notify_all net nt evs s in
          ((if (snd r =? 0)%nat then 0 else 1), s')
      end
  end.
Proof.
  unfold main_run, bind, get, ret.
  destruct evs as [|e l]; [done|].
  destruct (filter_new_events (sent_urls s) (e :: l)); [done|].
  by destruct (notify_all net nt (e :: l) s) as [[a b] s'].
Qed.

(** ** Concrete runs *)

Definition scenario_event : Event :=
  mkEvent scenario_title (lit "Test")
          (lit "https://labola.jp/r/shop/1/event/show/2/") scenario_date.

Definition other_event : Event :=
  mkEvent scenario_title (lit "Test")
          (lit "https://labola.jp/r/shop/1/event/show/3/") scenario_date.

Definition no_credentials : Notifier := mkNotifier None None.

Definition credentials : Notifier := mkNotifier (Some (lit "token")) (Some (lit "U1")).

Definition empty_ledger : St := mkSt ∅ [] [] 0.

Definition net_ok : nat -> response := fun _ => RespStatus 200.

(** ** C6 *)

(** C6 (as the code has it): without credentials, [notify_all] over a batch
    of [n] new events returns [(0, n)], issues no POST, commits nothing, and
    prints the configuration error once per attempted delivery ([n] times). *)
Theorem notify_all_missing_credentials (net : nat -> response) (nt : Notifier)
  (evs : list Event) (s : St) (Hc : creds_missing nt = true) :
  let n := length (filter_new_events (sent_urls s) evs) in
  let '(r, s') := notify_all net nt evs s in
  r = (0%nat, n) /\ nposts s' = nposts s /\ sent_urls s' = sent_urls s /\
  sent_file s' = sent_file s /\
  exists new, trace s' = trace s ++ new /\
    Forall (fun a => is_post a = false) new /\
    length (List.filter is_cred_report new) = n.
Proof.
  rewrite notify_all_unfold.
  destruct (filter_new_events (sent_urls s) evs) as [|e l] eqn:Hf.
  - simpl. repeat split; try done.
    exists [APrint PNoNewToNotify]. split; [done|]. split; [by repeat constructor|done].
  - cbv zeta. rewrite send_loop_no_creds by done. simpl.
    destruct (no_creds_reports (e :: l)) as [Hp Hn].
    repeat split; try done.
    eexists. split.
    + rewrite <- !app_assoc. reflexivity.
    + split.
      * apply Forall_app. split; [by repeat constructor|].
        apply Forall_app. split; [exact Hp|by repeat constructor].
      * rewrite !List.filter_app, !length_app. simpl in Hn |- *.
        lia.
Qed.

Lemma notify_all_missing_credentials_witness :
  creds_missing no_credentials = true /\
  (let '(r, s') := notify_all net_ok no_credentials [scenario_event; other_event] empty_ledger in
   r = (0%nat, 2%nat) /\ nposts s' = 0%nat /\ sent_file s' = []).
Proof.
  split; [reflexivity|].
  pose proof (notify_all_missing_credentials net_ok no_credentials
                [scenario_event; other_event] empty_ledger eq_refl) as H.
  simpl in H.
  destruct (notify_all net_ok no_credentials [scenario_event; other_event] empty_ledger)
    as [r s'].
  destruct H as (Hr & Hp & _ & Hf & _). rewrite Hr, Hp, Hf. done.
Defined.

(** C6 as stated fails: a run with two new events and no credentials prints
    the configuration error twice, not once. *)
Lemma missing_credentials_reported_per_event :
  let '(_, s') := main_run net_ok no_credentials [scenario_event; other_event] empty_ledger in
  length (List.filter is_cred_report (trace s')) = 2%nat /\
  length (List.filter is_cred_report (trace s')) <> 1%nat.
Proof. vm_compute. split; [reflexivity|discriminate]. Qed.

(** ** C7 *)

(** C7: [main] exits with 0 or 1; with 0 when no event was extracted or
    none of them is new (and then it makes no delivery attempt), and with 1
    exactly when a delivery attempt of the run failed, i.e. printed a
    failure line (missing credentials, API error status, request
    exception). *)
Theorem main_exit_code (net : nat -> response) (nt : Notifier)
  (evs : list Event) (s : St) :
  let '(code, s') := main_run net nt evs s in
  exists new, trace s' = trace s ++ new /\
    (code = 0 \/ code = 1) /\
    (filter_new_events (sent_urls s) evs = [] -> code = 0 /\ new = []) /\
    (code = 1 <-> Exists (fun a => is_failure_report a = true) new) /\
    (code = 0 <-> Forall (fun a => is_failure_report a = false) new).
Proof.
  rewrite main_run_unfold.
  assert (Hempty : forall code, code = 0 ->
    exists new, trace s = trace s ++ new /\ (code = 0 \/ code = 1) /\
      (filter_new_events (sent_urls s) evs = [] -> code = 0 /\ new = []) /\
      (code = 1 <-> Exists (fun a => is_failure_report a = true) new) /\
      (code = 0 <-> Forall (fun a => is_failure_report a = false) new)).
  { intros code ->. exists []. rewrite app_nil_r.
    repeat split; try by left. all: try done. intros H. inversion H. }
  destruct evs as [|e0 l0]; [by apply Hempty|].
  destruct (filter_new_events (sent_urls s) (e0 :: l0)) as [|e l] eqn:Hf;
    [by apply Hempty|].
  rewrite notify_all_unfold, Hf. cbv zeta.
  pose proof (send_loop_failures net nt (e :: l) 0 0
    (mkSt (sent_urls s) (sent_file s)
          (trace s ++ [APrint (PSending (length (e :: l)))]) (nposts s))) as HL.
  destruct (send_loop _ _ _ _ _ _) as [[sc fc] s1].
  destruct HL as (new & Ht & Hfc & _). simpl in Ht, Hfc |- *.
  exists ([APrint (PSending (S (length l)))] ++ new ++ [APrint (PComplete sc fc)]).
  split; [by rewrite Ht, <- !app_assoc|].
  assert (Hcount : length (List.filter is_failure_report
            ([APrint (PSending (S (length l)))] ++ new ++ [APrint (PComplete sc fc)])) = fc).
  { rewrite !List.filter_app, !length_app. simpl. lia. }
  assert (Hall : Forall (fun a => is_failure_report a = false)
            ([APrint (PSending (S (length l)))] ++ new ++ [APrint (PComplete sc fc)])
           <-> fc = 0%nat) by (rewrite <- filter_length_zero, Hcount; done).
  assert (Hex : Exists (fun a => is_failure_report a = true)
            ([APrint (PSending (S (length l)))] ++ new ++ [APrint (PComplete sc fc)])
           <-> fc <> 0%nat) by (rewrite <- filter_length_nonzero, Hcount; done).
  rewrite Hall, Hex.
  destruct (fc =? 0)%nat eqn:E.
  - apply Nat.eqb_eq in E. naive_solver.
  - apply Nat.eqb_neq in E. naive_solver.
Qed.

(** ** C10 *)

(** C10: [notify_all] computes its batch once, before the first delivery.
    With credentials and a network answering 200, for a url [u] not in the
    ledger, every input event with url [u] is posted and [u] is appended to
    the ledger file once per such event: two such events give two
    deliveries and two commits of [u]. *)
Theorem notify_all_duplicate_url (net : nat -> response) (nt : Notifier)
  (evs : list Event) (s : St) (u : pystr)
  (Hc : creds_missing nt = false) (Hnet : forall k, net k = RespStatus 200)
  (Hu : u ∉ sent_urls s)
  (H2 : (2 <= length (List.filter (fun e => bool_decide (url e = u)) evs))%nat) :
  let '(_, s') := notify_all net nt evs s in
  exists new appended,
    trace s' = trace s ++ new /\ sent_file s' = sent_file s ++ appended /\
    length (List.filter (is_post_of u) new) =
      length (List.filter (fun e => bool_decide (url e = u)) evs) /\
    length (List.filter (fun x => bool_decide (x = u)) appended) =
      length (List.filter (fun e => bool_decide (url e = u)) evs) /\
    (2 <= length (List.filter (fun x => bool_decide (x = u)) appended))%nat /\
    u ∈ sent_urls s'.
Proof.
  pose proof (filter_new_events_same_url (sent_urls s) evs u Hu) as Hsame.
  rewrite notify_all_unfold.
  destruct (filter_new_events (sent_urls s) evs) as [|e l] eqn:Hf.
  { simpl in Hsame. rewrite <- Hsame in H2. simpl in H2. lia. }
  cbv zeta. rewrite send_loop_all_ok by done. cbn [sent_urls sent_file trace nposts fst snd].
  exists ([APrint (PSending (S (length l)))] ++
          flat_map (fun e => [APost e; APrint (PSent (take 30 (title e))); AAppend (url e)])
            (e :: l) ++ [APrint (PComplete (0 + S (length l)) 0)]).
  exists (map url (e :: l)).
  rewrite <- Hsame in H2 |- *.
  split; [simpl; by rewrite <- !app_assoc|].
  split; [done|].
  assert (Hp := count_posts_ok (e :: l) u).
  assert (Hm := count_url_map (e :: l) u).
  split; [|split; [exact Hm|split; [by rewrite Hm|]]].
  - rewrite !List.filter_app, !length_app. simpl in Hp |- *. lia.
  - apply elem_of_union_l. apply elem_of_list_to_set.
    assert (Hin : exists e', In e' (e :: l) /\ url e' = u).
    { destruct (List.filter (fun e => bool_decide (url e = u)) (e :: l)) as [|e' r] eqn:E.
      - simpl in H2. lia.
      - exists e'. assert (Hx : In e' (List.filter (fun e => bool_decide (url e = u)) (e :: l)))
          by (rewrite E; left; done).
        apply filter_In in Hx as [Hx He']. apply bool_decide_eq_true in He'. done. }
    destruct Hin as (e' & Hin & <-).
    apply list_elem_of_In. apply in_map. exact Hin.
Qed.

Lemma notify_all_duplicate_url_witness :
  creds_missing credentials = false /\ (forall k, net_ok k = RespStatus 200) /\
  (url scenario_event ∉ sent_urls empty_ledger) /\
  (2 <= length (List.filter (fun e => bool_decide (url e = url scenario_event))
                 [scenario_event; other_event; scenario_event]))%nat /\
  (let '(_, s') := notify_all net_ok credentials
                     [scenario_event; other_event; scenario_event] empty_ledger in
   exists new appended,
    trace s' = trace empty_ledger ++ new /\ sent_file s' = sent_file empty_ledger ++ appended /\
    length (List.filter (is_post_of (url scenario_event)) new) =
      length (List.filter (fun e => bool_decide (url e = url scenario_event))
                [scenario_event; other_event; scenario_event]) /\
    length (List.filter (fun x => bool_decide (x = url scenario_event)) appended) =
      length (List.filter (fun e => bool_decide (url e = url scenario_event))
                [scenario_event; other_event; scenario_event]) /\
    (2 <= length (List.filter (fun x => bool_decide (x = url scenario_event)) appended))%nat /\
    url scenario_event ∈ sent_urls s').
Proof.
  assert (Hc : creds_missing credentials = false) by reflexivity.
  assert (Hn : forall k, net_ok k = RespStatus 200) by reflexivity.
  assert (Hu : url scenario_event ∉ sent_urls empty_ledger) by (simpl; set_solver).
  assert (H2 : (2 <= length (List.filter (fun e => bool_decide (url e = url scenario_event))
                 [scenario_event; other_event; scenario_event]))%nat)
    by (vm_compute; lia).
  split; [exact Hc|]. split; [exact Hn|]. split; [exact Hu|]. split; [exact H2|].
  exact (notify_all_duplicate_url net_ok credentials _ empty_ledger _ Hc Hn Hu H2).
Defined.

(** ** C8 *)

(** Spec-side reading of the first tier without a nested link (claim C8):
    the element's text with the leading label removed. *)
Definition strip_label_prefix (t : pystr) : pystr :=
  if startswith t ORGANIZER_LABEL then drop (length ORGANIZER_LABEL) t else t.

(** An organizer line, without link, whose text repeats the label. *)
Definition organizer_text_twice : pystr :=
  ORGANIZER_LABEL ++ lit "A" ++ ORGANIZER_LABEL ++ lit "B".

Definition card_label_twice : Card :=
  mkCard organizer_text_twice None None [mkTextElem organizer_text_twice None].

(** C8: [text.replace("主催者：", "")] removes every occurrence of the
    label, not only the leading one: on the line "主催者：A主催者：B" the
    facility is "AB", while the text with the label prefix stripped is
    "A主催者：B". *)
Theorem facility_label_removed_everywhere :
  extract_facility_from_card card_label_twice = lit "AB" /\
  strip_label_prefix organizer_text_twice = lit "A" ++ ORGANIZER_LABEL ++ lit "B" /\
  extract_facility_from_card card_label_twice <> strip_label_prefix organizer_text_twice.
Proof. vm_compute. split; [reflexivity|split; [reflexivity|discriminate]]. Qed.

(** The two tiers in order: the organizer line wins over a bracketed name
    in the card text; the bracket pattern is used only without such a line. *)
Example facility_organizer_over_bracket :
  extract_facility_from_card
    (mkCard ([LBRACKET] ++ lit "X" ++ [RBRACKET] ++ ORGANIZER_LABEL ++ lit "Y") None None
            [mkTextElem (ORGANIZER_LABEL ++ lit "Y") (Some (lit "Y"))]) = lit "Y".
Proof. reflexivity. Qed.

Example facility_bracket_fallback :
  extract_facility_from_card
    (mkCard ([LBRACKET] ++ lit "X" ++ [RBRACKET]) None None [mkTextElem (lit "Z") None])
  = lit "X".
Proof. reflexivity. Qed.

(** * Further properties of the code *)

(** ** The ledger file *)

(** A url with no whitespace character (every url the site links to). *)
Definition clean_url (u : pystr) : Prop :=
  u <> [] /\ Forall (fun c => is_space c = false) u.

Lemma translate_no_cr (s : pystr) :
  Forall (fun c => c <> CR) s -> translate_newlines s = s.
Proof.
  induction s as [|c s IH]; intros H; [done|].
  inversion H as [|? ? Hc Hs]; subst. simpl.
  rewrite bool_decide_false by done. by rewrite IH.
Qed.

Lemma translate_ledger_text (urls : list pystr) :
  Forall clean_url urls -> translate_newlines (ledger_text urls) = ledger_text urls.
Proof.
  intros H. apply translate_no_cr. unfold ledger_text.
  induction urls as [|u us IH]; simpl; [constructor|].
  inversion H as [|? ? [_ Hu] Hus]; subst.
  apply Forall_app. split; [|by apply IH].
  apply Forall_app. split; [|repeat constructor; discriminate].
  eapply Forall_impl; [exact Hu|]. intros c Hc ->. discriminate.
Qed.

Lemma split_lines_line (cur u rest : pystr) :
  Forall (fun c => is_space c = false) u ->
  split_lines_aux cur (u ++ NEWLINE :: rest) =
  (rev cur ++ u ++ [NEWLINE]) :: split_lines_aux [] rest.
Proof.
  revert cur. induction u as [|c u IH]; intros cur H; simpl.
  - done.
  - inversion H as [|? ? Hc Hu]; subst.
    rewrite bool_decide_false by (intros ->; discriminate).
    rewrite IH by done. simpl. by rewrite <- app_assoc.
Qed.

Lemma lstrip_clean (u rest : pystr) :
  u <> [] -> Forall (fun c => is_space c = false) u -> lstrip (u ++ rest) = u ++ rest.
Proof.
  destruct u as [|c u]; intros Hne H; [done|].
  inversion H as [|? ? Hc _]; subst. simpl. by rewrite Hc.
Qed.

Lemma strip_line (u : pystr) : clean_url u -> strip (u ++ [NEWLINE]) = u.
Proof.
  intros [Hne H]. unfold strip. rewrite lstrip_clean by done.
  rewrite rev_app_distr. simpl.
  rewrite <- (app_nil_r (rev u)), lstrip_clean.
  - rewrite app_nil_r. apply rev_involutive.
  - intros E. apply Hne. rewrite <- (rev_involutive u), E. done.
  - by apply Forall_rev.
Qed.

Lemma lines_ledger_text (urls : list pystr) :
  Forall clean_url urls ->
  stripped_lines (file_lines (ledger_text urls)) = urls.
Proof.
  intros H. unfold file_lines. rewrite translate_ledger_text by done.
  induction urls as [|u us IH]; [done|].
  inversion H as [|? ? Hu Hus]; subst.
  change (ledger_text (u :: us)) with ((u ++ [NEWLINE]) ++ ledger_text us).
  rewrite <- app_assoc. simpl. rewrite split_lines_line by (apply Hu). simpl.
  rewrite strip_line by done. destruct Hu as [Hne _].
  destruct u; [done|]. rewrite IH by done. done.
Qed.

Lemma load_ledger_text (urls : list pystr) :
  Forall clean_url urls ->
  load_sent_urls (Some (ledger_text urls)) = list_to_set urls.
Proof. intros H. simpl. by rewrite lines_ledger_text. Qed.

(** X1: [_load_sent_urls] gives the empty set when the file is missing,
    and reads back exactly the set of urls [_save_sent_url] appended, for
    urls without whitespace. *)
Theorem ledger_round_trip (urls : list pystr) (Hclean : Forall clean_url urls) :
  load_sent_urls None = ∅ /\
  load_sent_urls (Some (ledger_text urls)) = list_to_set urls.
Proof. split; [done|]. by apply load_ledger_text. Qed.

Lemma ledger_round_trip_witness :
  Forall clean_url [url scenario_event; url other_event] /\
  load_sent_urls (Some (ledger_text [url scenario_event; url other_event])) =
  list_to_set [url scenario_event; url other_event].
Proof.
  assert (H : Forall clean_url [url scenario_event; url other_event]).
  { repeat constructor; try discriminate; apply List.Forall_forall; intros c Hc;
      simpl in Hc; repeat destruct Hc as [<-|Hc]; try reflexivity; contradiction. }
  split; [exact H|]. exact (proj2 (ledger_round_trip _ H)).
Defined.

(** ** What a delivery loop does to the ledger, for any network *)

Lemma send_loop_ledger net nt evs sc fc s :
  let '((sc', fc'), s') := send_loop net nt evs sc fc s in
  exists appended new,
    sent_file s' = sent_file s ++ appended /\
    sent_urls s' = list_to_set appended ∪ sent_urls s /\
    trace s' = trace s ++ new /\
    (sc' = sc + length appended)%nat /\
    (sc' + fc' = sc + fc + length evs)%nat /\
    Forall (fun u => exists e, In e evs /\ url e = u) appended /\
    (forall e, In (APost e) new -> In e evs) /\
    (nposts s' <= nposts s + length evs)%nat.
Proof.
  revert sc fc s. induction evs as [|ev evs IH]; intros sc fc s.
  - exists [], []. destruct s; simpl. rewrite !app_nil_r.
    repeat split; try done; try lia. set_solver.
  - rewrite send_loop_cons, send_notification_cases.
    destruct (creds_missing nt);
      [|destruct (net (nposts s)) as [code|];
        [destruct (bool_decide (code = 200))|]].
    all: lazymatch goal with
         | |- context [send_loop ?nw ?n ?l ?a ?b ?s1] =>
             specialize (IH a b s1); destruct (send_loop nw n l a b s1) as [[x y] s'];
             destruct IH as (app & new & Hf & Hu & Ht & Hsc & Hsum & Happ & Hpost & Hn);
             simpl in Hf, Hu, Ht, Hn
         end.
    (* credentials missing *)
    + exists app, ([APrint PCredNotConfigured; APrint PCredHint] ++ new).
      rewrite Hf, Hu, Ht, <- app_assoc. repeat split; try done; try (simpl; lia).
      * eapply Forall_impl; [exact Happ|]. intros u (e & He & <-). exists e. split; [by right|done].
      * intros e Hin. apply in_app_or in Hin as [Hin|Hin]; [simpl in Hin; naive_solver|].
        right. by apply Hpost.
    (* status 200: committed *)
    + exists (url ev :: app),
        ([APost ev; APrint (PSent (take 30 (title ev))); AAppend (url ev)] ++ new).
      rewrite Hf, Hu, Ht, <- !app_assoc. repeat split; try done; try (simpl; lia).
      * simpl. set_solver.
      * constructor; [exists ev; split; [left|]; done|].
        eapply Forall_impl; [exact Happ|]. intros u (e & He & <-). exists e. split; [by right|done].
      * intros e Hin. apply in_app_or in Hin as [Hin|Hin]; [simpl in Hin; naive_solver|].
        right. by apply Hpost.
    (* other status *)
    + exists app, ([APost ev; APrint (PApiError code); APrint PApiResponse] ++ new).
      rewrite Hf, Hu, Ht, <- app_assoc. repeat split; try done; try (simpl; lia).
      * eapply Forall_impl; [exact Happ|]. intros u (e & He & <-). exists e. split; [by right|done].
      * intros e Hin. apply in_app_or in Hin as [Hin|Hin]; [simpl in Hin; naive_solver|].
        right. by apply Hpost.
    (* request exception *)
    + exists app, ([APost ev; APrint PRequestFailed] ++ new).
      rewrite Hf, Hu, Ht, <- app_assoc. repeat split; try done; try (simpl; lia).
      * eapply Forall_impl; [exact Happ|]. intros u (e & He & <-). exists e. split; [by right|done].
      * intros e Hin. apply in_app_or in Hin as [Hin|Hin]; [simpl in Hin; naive_solver|].
        right. by apply Hpost.
Qed.

Lemma notify_all_ledger_aux net nt evs s :
  let batch := filter_new_events (sent_urls s) evs in
  let '((sc, fc), s') := notify_all net nt evs s in
  exists appended new,
    sent_file s' = sent_file s ++ appended /\
    sent_urls s' = list_to_set appended ∪ sent_urls s /\
    trace s' = trace s ++ new /\
    length appended = sc /\ (sc + fc = length batch)%nat /\
    Forall (fun u => exists e, In e batch /\ url e = u) appended /\
    (forall e, In (APost e) new -> In e batch) /\
    (nposts s' <= nposts s + length batch)%nat.
Proof.
  cbv zeta. rewrite notify_all_unfold.
  destruct (filter_new_events (sent_urls s) evs) as [|e l] eqn:Hf.
  - exists [], [APrint PNoNewToNotify]. destruct s; simpl.
    rewrite app_nil_r. repeat split; try done; try lia; [set_solver|naive_solver].
  - cbv zeta. pose proof (send_loop_ledger net nt (e :: l) 0 0
      (mkSt (sent_urls s) (sent_file s)
            (trace s ++ [APrint (PSending (length (e :: l)))]) (nposts s))) as HL.
    destruct (send_loop _ _ _ _ _ _) as [[sc fc] s1].
    destruct HL as (app & new & H1 & H2 & H3 & H4 & H5 & H6 & H7 & H8).
    simpl in H1, H2, H3, H8 |- *.
    exists app, ([APrint (PSending (S (length l)))] ++ new ++ [APrint (PComplete sc fc)]).
    rewrite H1, H2, H3, <- !app_assoc.
    repeat split; try done; try lia.
    intros e' Hin. apply in_app_or in Hin as [Hin|Hin]; [simpl in Hin; naive_solver|].
    apply in_app_or in Hin as [Hin|Hin]; [by apply H7|simpl in Hin; naive_solver].
Qed.

(** X2: [notify_all] only appends to the ledger: the file gains one line per
    successful delivery and the in-memory set gains exactly those urls, each
    the url of an event of the new batch; successes and failures add up to
    the batch size. *)
Theorem notify_all_ledger_growth (net : nat -> response) (nt : Notifier)
  (evs : list Event) (s : St) :
  let batch := filter_new_events (sent_urls s) evs in
  let '((sc, fc), s') := notify_all net nt evs s in
  exists appended,
    sent_file s' = sent_file s ++ appended /\
    sent_urls s' = list_to_set appended ∪ sent_urls s /\
    length appended = sc /\ (sc + fc = length batch)%nat /\
    Forall (fun u => exists e, In e batch /\ url e = u) appended.
Proof.
  pose proof (notify_all_ledger_aux net nt evs s) as H. cbv zeta in H |- *.
  destruct (notify_all net nt evs s) as [[sc fc] s'].
  destruct H as (app & new & H1 & H2 & _ & H4 & H5 & H6 & _). exists app. done.
Qed.

(** X3: [notify_all] never sends a request for an event whose url was in
    the ledger when it started, and sends at most one request per event of
    the new batch. *)
Theorem notify_all_posts_only_new (net : nat -> response) (nt : Notifier)
  (evs : list Event) (s : St) :
  let '(_, s') := notify_all net nt evs s in
  exists new, trace s' = trace s ++ new /\
    (forall e, In (APost e) new -> In e evs /\ url e ∉ sent_urls s) /\
    (nposts s' <= nposts s + length (filter_new_events (sent_urls s) evs))%nat.
Proof.
  pose proof (notify_all_ledger_aux net nt evs s) as H. cbv zeta in H |- *.
  destruct (notify_all net nt evs s) as [[sc fc] s'].
  destruct H as (app & new & _ & _ & H3 & _ & _ & _ & H7 & H8).
  exists new. split; [done|]. split; [|done].
  intros e He. apply H7 in He. unfold filter_new_events, is_new_event in He.
  apply filter_In in He as [He Hn]. apply bool_decide_eq_true in Hn. done.
Qed.

Lemma filter_new_events_nil (sent : gset pystr) (evs : list Event) :
  filter_new_events sent evs = [] <-> forall e, In e evs -> url e ∈ sent.
Proof.
  unfold filter_new_events, is_new_event.
  induction evs as [|e es IH]; simpl; [naive_solver|].
  destruct (bool_decide (url e ∉ sent)) eqn:E.
  - apply bool_decide_eq_true in E. split; [discriminate|].
    intros H. exfalso. apply E, H. by left.
  - apply bool_decide_eq_false in E. rewrite IH.
    split; [|naive_solver]. intros H e' [<-|Hin]; [|by apply H].
    destruct (decide (url e ∈ sent)); [done|contradiction].
Qed.

(** X4: when every delivery succeeds, [notify_all] reports the whole batch
    as sent and afterwards no event of its input is new for the same
    notifier: calling it again on the same events sends nothing. *)
Theorem notify_all_then_nothing_new (net : nat -> response) (nt : Notifier)
  (evs : list Event) (s : St)
  (Hc : creds_missing nt = false) (Hnet : forall k, net k = RespStatus 200) :
  let '(r, s') := notify_all net nt evs s in
  r = (length (filter_new_events (sent_urls s) evs), 0%nat) /\
  filter_new_events (sent_urls s') evs = [].
Proof.
  rewrite notify_all_unfold.
  destruct (filter_new_events (sent_urls s) evs) as [|e l] eqn:Hf.
  - simpl. done.
  - cbv zeta. rewrite send_loop_all_ok by done.
    cbn [sent_urls sent_file trace nposts fst snd]. split; [f_equal; lia|].
    apply filter_new_events_nil. intros e' Hin.
    destruct (decide (url e' ∈ sent_urls s)) as [Hs|Hs]; [set_solver|].
    apply elem_of_union_l. apply elem_of_list_to_set.
    apply list_elem_of_In. apply in_map.
    assert (Hb : In e' (filter_new_events (sent_urls s) evs)).
    { unfold filter_new_events, is_new_event. apply filter_In.
      split; [done|]. by apply bool_decide_eq_true. }
    rewrite Hf in Hb. exact Hb.
Qed.

Lemma notify_all_then_nothing_new_witness :
  creds_missing credentials = false /\ (forall k, net_ok k = RespStatus 200) /\
  (let '(r, s') := notify_all net_ok credentials [scenario_event; other_event] empty_ledger in
   r = (length (filter_new_events (sent_urls empty_ledger) [scenario_event; other_event]), 0%nat) /\
   filter_new_events (sent_urls s') [scenario_event; other_event] = []).
Proof.
  assert (Hc : creds_missing credentials = false) by reflexivity.
  assert (Hn : forall k, net_ok k = RespStatus 200) by reflexivity.
  split; [exact Hc|]. split; [exact Hn|].
  exact (notify_all_then_nothing_new net_ok credentials [scenario_event; other_event] empty_ledger Hc Hn).
Defined.

Lemma main_run_nothing_new net nt evs s :
  filter_new_events (sent_urls s) evs = [] -> main_run net nt evs s = (0, s).
Proof.
  intros H. rewrite main_run_unfold, H. by destruct evs.
Qed.

Lemma filter_new_events_in (sent : gset pystr) (evs : list Event) (e : Event) :
  In e evs -> url e ∈ sent \/ In e (filter_new_events sent evs).
Proof.
  intros Hin. destruct (decide (url e ∈ sent)) as [H|H]; [by left|right].
  unfold filter_new_events, is_new_event. apply filter_In.
  split; [done|]. by apply bool_decide_eq_true.
Qed.

(** X5: across runs through the ledger file.  When a run of [main] has
    credentials and every delivery succeeds, the next run on the same
    events, which reloads the ledger from the file, sends nothing and exits
    with 0, whatever its network and credentials (urls without whitespace). *)
Theorem second_run_sends_nothing (net : nat -> response) (nt : Notifier)
  (evs : list Event) (urls0 : list pystr)
  (Hc : creds_missing nt = false) (Hnet : forall k, net k = RespStatus 200)
  (H0 : Forall clean_url urls0) (Hev : Forall (fun e => clean_url (url e)) evs) :
  let s0 := mkSt (load_sent_urls (Some (ledger_text urls0))) urls0 [] 0 in
  let '(_, s1) := main_run net nt evs s0 in
  let s2 := mkSt (load_sent_urls (Some (ledger_text (sent_file s1)))) (sent_file s1) [] 0 in
  forall (net' : nat -> response) (nt' : Notifier), main_run net' nt' evs s2 = (0, s2).
Proof.
  cbv zeta. rewrite (load_ledger_text urls0 H0).
  rewrite main_run_unfold. cbn [sent_urls].
  destruct evs as [|e0 l0]; [intros; by rewrite main_run_unfold|].
  destruct (filter_new_events (list_to_set urls0) (e0 :: l0)) as [|e l] eqn:Hf.
  { intros net' nt'. apply main_run_nothing_new. cbn [sent_urls sent_file].
    by rewrite (load_ledger_text urls0 H0). }
  rewrite notify_all_unfold. cbn [sent_urls]. rewrite Hf. cbv zeta.
  rewrite send_loop_all_ok by done.
  cbn [sent_urls sent_file trace nposts fst snd].
  intros net' nt'. apply main_run_nothing_new. cbn [sent_urls].
  assert (Hb : forall x, In x (e :: l) -> In x (e0 :: l0)).
  { intros x Hx. rewrite <- Hf in Hx. unfold filter_new_events in Hx.
    by apply filter_In in Hx as [Hx _]. }
  rewrite load_ledger_text.
  - apply filter_new_events_nil. intros x Hx.
    apply elem_of_list_to_set, list_elem_of_In, in_or_app.
    destruct (filter_new_events_in (list_to_set urls0) _ _ Hx) as [Hs|Hs].
    + left. apply list_elem_of_In. by apply elem_of_list_to_set in Hs.
    + right. rewrite Hf in Hs. by apply in_map.
  - apply Forall_app. split; [done|].
    apply Forall_map. apply List.Forall_forall. intros x Hx.
    eapply List.Forall_forall in Hev; [exact Hev|]. by apply Hb.
Qed.

Lemma second_run_sends_nothing_witness :
  creds_missing credentials = false /\ (forall k, net_ok k = RespStatus 200) /\
  Forall clean_url [] /\ Forall (fun e => clean_url (url e)) [scenario_event; other_event] /\
  (let s0 := mkSt (load_sent_urls (Some (ledger_text []))) [] [] 0 in
   let '(_, s1) := main_run net_ok credentials [scenario_event; other_event] s0 in
   let s2 := mkSt (load_sent_urls (Some (ledger_text (sent_file s1)))) (sent_file s1) [] 0 in
   forall (net' : nat -> response) (nt' : Notifier),
     main_run net' nt' [scenario_event; other_event] s2 = (0, s2)).
Proof.
  assert (Hc : creds_missing credentials = false) by reflexivity.
  assert (Hn : forall k, net_ok k = RespStatus 200) by reflexivity.
  assert (H0 : Forall clean_url []) by constructor.
  assert (Hev : Forall (fun e => clean_url (url e)) [scenario_event; other_event]).
  { repeat constructor; try discriminate; apply List.Forall_forall; intros c Hc';
      simpl in Hc'; repeat destruct Hc' as [<-|Hc']; try reflexivity; contradiction. }
  split; [exact Hc|]. split; [exact Hn|]. split; [exact H0|]. split; [exact Hev|].
  exact (second_run_sends_nothing net_ok credentials [scenario_event; other_event] []
           Hc Hn H0 Hev).
Defined.

(** ** [_format_message] *)




(** X7: the date line [date[:4]/date[4:6]/date[6:]] of a date of at least
    six characters is two characters longer than the date, and dropping its
    characters at positions 4 and 7 (the two slashes) gives the date back. *)
Theorem format_date_round_trip (d : pystr) (Hlen : (6 <= length d)%nat) :
  length (format_date d) = (length d + 2)%nat /\
  take 4 (format_date d) ++ take 2 (drop 5 (format_date d)) ++ drop 8 (format_date d) = d /\
  nth 4 (format_date d) 0 = 47 /\ nth 7 (format_date d) 0 = 47.
Proof.
  destruct d as [|x1 [|x2 [|x3 [|x4 [|x5 [|x6 rest]]]]]]; simpl in Hlen; try lia.
  unfold format_date. simpl. rewrite !drop_0. split; [lia|]. split; [done|]. split; vm_compute; reflexivity.
Qed.

Lemma format_date_round_trip_witness :
  (6 <= length scenario_date)%nat /\
  take 4 (format_date scenario_date) ++ take 2 (drop 5 (format_date scenario_date)) ++
    drop 8 (format_date scenario_date) = scenario_date.
Proof.
  assert (H : (6 <= length scenario_date)%nat) by (vm_compute; lia).
  split; [exact H|]. exact (proj1 (proj2 (format_date_round_trip scenario_date H))).
Defined.



(** [lazy_close] stops at the first [】] and fails at a newline. *)
Lemma lazy_close_sound acc s r :
  lazy_close acc s = Some r ->
  exists g q, s = g ++ RBRACKET :: q /\ r = rev acc ++ g /\
    Forall (fun x => x <> NEWLINE /\ x <> RBRACKET) g.
Proof.
  revert acc. induction s as [|c s IH]; intros acc H; cbn [lazy_close] in H; [done|].
  case_bool_decide as E1.
  - injection H as <-. exists [], s. subst c. rewrite app_nil_r. done.
  - case_bool_decide as E2; [done|].
    apply IH in H as (g & q & -> & -> & Hg). exists (c :: g), q.
    split; [done|]. split; [cbn [rev]; by rewrite <- app_assoc|]. by constructor.
Qed.

Lemma lazy_close_complete acc g q :
  Forall (fun x => x <> NEWLINE /\ x <> RBRACKET) g ->
  lazy_close acc (g ++ RBRACKET :: q) = Some (rev acc ++ g).
Proof.
  revert acc. induction g as [|c g IH]; intros acc Hg; cbn [app lazy_close].
  - rewrite bool_decide_eq_true_2 by done. by rewrite app_nil_r.
  - apply Forall_cons in Hg as [[H1 H2] Hg].
    rewrite bool_decide_eq_false_2 by done. rewrite bool_decide_eq_false_2 by done.
    rewrite IH by done. cbn [rev]. by rewrite <- app_assoc.
Qed.

(** X9: [re.search(r"【(.+?)】", text)] as the code uses it: a group it
    returns is a non-empty run, with no newline and no [】] after its first
    character, that sits between a [【] and a [】] of the text; and it finds a
    group whenever the text has such a bracketed run. *)
Theorem bracket_search_spec (s : pystr) :
  (forall g, bracket_search s = Some g ->
     exists c g' p q, g = c :: g' /\ c <> NEWLINE /\
       Forall (fun x => x <> NEWLINE /\ x <> RBRACKET) g' /\
       s = p ++ LBRACKET :: g ++ RBRACKET :: q) /\
  ((exists c g' p q, c <> NEWLINE /\ Forall (fun x => x <> NEWLINE /\ x <> RBRACKET) g' /\
      s = p ++ LBRACKET :: c :: g' ++ RBRACKET :: q) ->
   bracket_search s <> None).
Proof.
  split.
  - induction s as [|c0 s IH]; intros g H; cbn [bracket_search] in H; [done|].
    assert (Hrest : bracket_search s = Some g ->
              exists c g' p q, g = c :: g' /\ c <> NEWLINE /\
                Forall (fun x => x <> NEWLINE /\ x <> RBRACKET) g' /\
                c0 :: s = p ++ LBRACKET :: g ++ RBRACKET :: q).
    { intros Hs. apply IH in Hs as (c & g' & p & q & ? & ? & ? & ->).
      exists c, g', (c0 :: p), q. done. }
    case_bool_decide as E; [|by apply Hrest].
    destruct (bracket_at s) as [g0|] eqn:Hb; [|by apply Hrest].
    injection H as <-. subst c0.
    destruct s as [|c s]; cbn [bracket_at] in Hb; [done|].
    case_bool_decide as En; [done|].
    apply lazy_close_sound in Hb as (g' & q & -> & -> & Hg).
    exists c, g', [], q. done.
  - intros (c & g' & p & q & Hc & Hg & ->).
    induction p as [|x p IH]; cbn [app bracket_search].
    + rewrite bool_decide_eq_true_2 by done. cbn [bracket_at].
      rewrite bool_decide_eq_false_2 by done. by rewrite lazy_close_complete.
    + case_bool_decide; [|done].
      destruct (bracket_at _); done.
Qed.

Lemma parse_events_date cards d e :
  In e (parse_events cards d) -> date e = d.
Proof.
  intros H. apply in_parse_events in H as (c & _ & Hp).
  rewrite parse_card_status in Hp.
  destruct (title_elem c) as [[l|]|]; try done.
  destruct (link_text l); [done|].
  destruct (fst _); [|done]. by injection Hp as <-.
Qed.

Lemma in_scrape_dates http ds e :
  In e (scrape_dates http ds) <->
  exists d cards, In d ds /\ fetch_page http d = Some cards /\ In e (parse_events cards d).
Proof.
  induction ds as [|d ds IH]; cbn [scrape_dates].
  - split; [done|]. intros (? & ? & [] & _).
  - destruct (fetch_page http d) as [cards|] eqn:Hf; [rewrite in_app_iff|]; rewrite IH.
    + split.
      * intros [H|(d' & cs & ? & ? & ?)]; [exists d, cards; naive_solver|].
        exists d', cs. naive_solver.
      * intros (d' & cs & [<-|Hin] & Hf' & He); [left; congruence|].
        right. eauto.
    + split.
      * intros (d' & cs & ? & ? & ?). exists d', cs. naive_solver.
      * intros (d' & cs & [<-|Hin] & Hf' & He); [congruence|eauto].
Qed.

(** X10: [scrape_all] yields nothing without a dates file, and it yields an
    event exactly when the event's date is one of the valid dates read by
    [load_dates], the page of that date was fetched, and [parse_events] of
    that page returns the event; every yielded date is eight decimal digits. *)
Theorem scrape_all_exact (is_decimal : Z -> bool) (http : pystr -> page_response)
    (file : option (list pystr)) (e : Event) :
  scrape_all is_decimal http None = [] /\
  (In e (scrape_all is_decimal http file) <->
   exists cards, In (date e) (fst (load_dates is_decimal file)) /\
     fetch_page http (date e) = Some cards /\ In e (parse_events cards (date e))) /\
  (In e (scrape_all is_decimal http file) -> match_date8 is_decimal (date e) = true).
Proof.
  assert (Hiff : In e (scrape_all is_decimal http file) <->
     exists cards, In (date e) (fst (load_dates is_decimal file)) /\
       fetch_page http (date e) = Some cards /\ In e (parse_events cards (date e))).
  { assert (Hs : scrape_all is_decimal http file =
                 scrape_dates http (fst (load_dates is_decimal file))).
    { unfold scrape_all. by destruct (fst (load_dates is_decimal file)). }
    rewrite Hs, in_scrape_dates. split.
    - intros (d & cards & Hd & Hf & He). pose proof (parse_events_date _ _ _ He) as ->.
      eauto.
    - intros (cards & ?). exists (date e), cards. done. }
  split; [reflexivity|]. split; [exact Hiff|].
  intros H. apply Hiff in H as (cards & Hd & _).
  destruct file as [lines|]; cbn [load_dates fst] in Hd; [|done].
  rewrite validate_dates_filter in Hd. cbn [fst] in Hd.
  by apply filter_In in Hd as [_ ?].
Qed.

(** X11: [fetch_page] returns nothing exactly when the GET of the date's
    search url raises or answers with a status in [400, 600); such a date
    contributes no events and the dates around it are scraped as before. *)
Theorem fetch_page_failure (http : pystr -> page_response) (d : pystr) :
  (fetch_page http d = None <->
   http (search_url d) = PageExn \/
   exists code cards, http (search_url d) = PageResp code cards /\ 400 <= code < 600) /\
  (fetch_page http d = None -> forall ds1 ds2,
     scrape_dates http (ds1 ++ d :: ds2) = scrape_dates http ds1 ++ scrape_dates http ds2).
Proof.
  split.
  - unfold fetch_page. destruct (http (search_url d)) as [|code cards]; [naive_solver|].
    destruct ((400 <=? code) && (code <? 600)) eqn:E.
    + apply andb_true_iff in E as [E1 E2]. apply Z.leb_le in E1. apply Z.ltb_lt in E2.
      split; [intros _; right; eauto|done].
    + split; [done|]. intros [?|(c' & cs & Heq & ?)]; [done|].
      injection Heq as <- <-. apply andb_false_iff in E as [E|E];
        [apply Z.leb_gt in E|apply Z.ltb_ge in E]; lia.
  - intros Hf ds1 ds2. induction ds1 as [|d1 ds1 IH]; cbn [app scrape_dates].
    + by rewrite Hf.
    + destruct (fetch_page http d1); [rewrite IH, app_assoc|]; done.
Qed.
